(** * Peer: status tracking and stuck detection of a remote node

    A shallow embedding of [src/Peer.ts].  A [Peer] wraps the WebSocket and
    HTTP clients of one remote node, polls its status every two seconds,
    merges each status into a running snapshot and raises [NodeStuck] when
    the node's height has not advanced for more than twenty seconds.

    The class is embedded as a record of its fields.  Status objects live in
    a store and are passed and held by reference, as in the source, where
    the first status received is kept and later ones are merged into it in
    place.  Each method is an [Action]: a function from the world before the
    call (the store and the peer) to the world after it, paired with the list
    of outward effects of the call in program order (events emitted, calls on
    the two clients, console output, timer operations).  [Date.now()] is an
    input of the call that reads it. *)

From Stdlib Require Import ZArith Lia.
From stdpp Require Import base option list strings gmap pretty.

Local Open Scope Z_scope.

(** ** JavaScript values and objects *)

(** The values a field of a status or peer descriptor holds. *)
Inductive value :=
| VNum (n : Z)
| VStr (s : string)
| VBool (b : bool).

#[global] Instance value_eq_dec : EqDecision value.
Proof. solve_decision. Defined.

(** Modelled from the spec: [NodeStatus] is declared in [WsApi.ts], which is
    not among the sources.  A status report carries the chain height, a
    number, and further fields (version, operating system, the node
    identifier [nonce], anything else the remote reports), each of which may
    be present or not.  [fields] holds the own properties other than
    [height].  Heights are block counts and times are milliseconds: both
    are integers here. *)
Record NodeStatus := mkNodeStatus {
  height : Z;
  fields : gmap string value;
}.

#[global] Instance NodeStatus_eq_dec : EqDecision NodeStatus.
Proof. solve_decision. Defined.

#[global] Instance NodeStatus_inhabited : Inhabited NodeStatus :=
  populate (mkNodeStatus 0 ∅).

(** The own properties of a status object, [height] included. *)
Definition props (s : NodeStatus) : gmap string value :=
  <["height" := VNum (height s)]> (fields s).

(** [o.k] for a status object: [None] is JavaScript's [undefined]. *)
Definition get (s : NodeStatus) (k : string) : option value := props s !! k.

(** What [Object.assign(target, source)] leaves in [target]: every own
    property of [source], and the properties of [target] that [source]
    lacks. *)
Definition assigned (target source : NodeStatus) : NodeStatus :=
  {| height := height source;
     fields := fields source ∪ fields target |}.

(** Modelled from the spec: [PeerInfo] is declared in [WsApi.ts]; a peer
    descriptor is an object of plain fields.  Peer lists are never written
    to after they are received and are kept by value. *)
Definition PeerInfo : Type := gmap string value.

(** A reference to a status object. *)
Definition ref : Type := positive.

(** ** Enumerations and option records *)

Inductive PeerEvent :=
| StatusUpdated
| PeersUpdated
| NodeStuck.

#[global] Instance PeerEvent_eq_dec : EqDecision PeerEvent.
Proof. solve_decision. Defined.

Inductive PeerState :=
| Online
| Offline.

#[global] Instance PeerState_eq_dec : EqDecision PeerState.
Proof. solve_decision. Defined.

Module PeerOptions.
Record t := mk {
  ip : string;
  wsPort : Z;
  httpPort : Z;
  nethash : string;
  nonce : option string;
}.
End PeerOptions.

Module OwnNodeOptions.
Record t := mk {
  httpPort : Z;
  wsPort : Z;
  nonce : string;
  os : string;
  version : string;
}.
End OwnNodeOptions.

(** ** The object and the world around it *)

(** The handle [setInterval] returns, with the state the runtime keeps for
    it: its period and whether it still fires. *)
Record Timeout := mkTimeout {
  delay : Z;
  active : bool;
}.

Record Peer := mkPeer {
  options : PeerOptions.t;
  peers : list PeerInfo;
  _lastHeightUpdate : Z;
  _stuck : bool;
  statusUpdateInterval : Timeout;
  _state : PeerState;
  _status : option ref;
  _httpActive : bool;
  _wsServerConnected : bool;
}.

(** The status objects that exist, by reference, and the peer. *)
Record World := mkWorld {
  objects : gmap ref NodeStatus;
  peer : Peer;
}.

(** The object a reference designates.  Every reference the program holds
    designates one; a reference outside the store reads as an empty status
    at height 0. *)
Definition deref (w : World) (r : ref) : NodeStatus := objects w !!! r.

(** ** Effects *)

Inductive Payload :=
| PStatus (status : ref)
| PPeers (peers : list PeerInfo).

(** What a settled promise of the WebSocket or HTTP client delivers. *)
Inductive Settled (A : Type) :=
| Resolved (a : A)
| Rejected (err : string).
Arguments Resolved {A} a.
Arguments Rejected {A} err.

(** The outward effects of the methods.  [NewWsApi] and [NewHttpApi] are the
    two client constructions, [Ws...] and [Http...] the requests issued on
    the clients, [Emit] is [this.emit(event, payload)]. *)
Inductive Effect :=
| NewWsApi (ip : string) (wsPort httpPort : Z)
    (ownNode : OwnNodeOptions.t) (nethash : string) (ownHeight : Z)
| NewHttpApi (ip : string) (httpPort : Z)
| HttpGetNodeStatus
| WsConnect
| WsGetStatus
| WsGetPeers
| WsGetBlocks
| WsDestroy
| SetInterval (ms : Z)
| ClearInterval
| Emit (event : PeerEvent) (payload : option Payload)
| ConsoleWarn (msg : string)
| ConsoleError (msg : string).

(** A method body: the world after the call and the effects of the call. *)
Definition Action : Type := World → World * list Effect.

Definition skip : Action := λ w, (w, []).

Definition seq (a b : Action) : Action := λ w,
  let '(w1, out1) := a w in
  let '(w2, out2) := b w1 in
  (w2, out1 ++ out2).

Infix ">>" := seq (at level 61, left associativity).

Definition effect (e : Effect) : Action := λ w, (w, [e]).

Definition emit (event : PeerEvent) (payload : option Payload) : Action :=
  effect (Emit event payload).

(** A write to the peer's own fields. *)
Definition update (f : Peer → Peer) : Action := λ w,
  (mkWorld (objects w) (f (peer w)), []).

(** Field assignments [this.f = v]. *)
Definition set_peers (v : list PeerInfo) : Action := update (λ this,
  mkPeer (options this) v (_lastHeightUpdate this) (_stuck this)
    (statusUpdateInterval this) (_state this) (_status this)
    (_httpActive this) (_wsServerConnected this)).

Definition set_lastHeightUpdate (v : Z) : Action := update (λ this,
  mkPeer (options this) (peers this) v (_stuck this)
    (statusUpdateInterval this) (_state this) (_status this)
    (_httpActive this) (_wsServerConnected this)).

Definition set_stuck (v : bool) : Action := update (λ this,
  mkPeer (options this) (peers this) (_lastHeightUpdate this) v
    (statusUpdateInterval this) (_state this) (_status this)
    (_httpActive this) (_wsServerConnected this)).

Definition set_state (v : PeerState) : Action := update (λ this,
  mkPeer (options this) (peers this) (_lastHeightUpdate this) (_stuck this)
    (statusUpdateInterval this) v (_status this)
    (_httpActive this) (_wsServerConnected this)).

Definition set_status (v : ref) : Action := update (λ this,
  mkPeer (options this) (peers this) (_lastHeightUpdate this) (_stuck this)
    (statusUpdateInterval this) (_state this) (Some v)
    (_httpActive this) (_wsServerConnected this)).

Definition set_httpActive (v : bool) : Action := update (λ this,
  mkPeer (options this) (peers this) (_lastHeightUpdate this) (_stuck this)
    (statusUpdateInterval this) (_state this) (_status this)
    v (_wsServerConnected this)).

Definition set_wsServerConnected (v : bool) : Action := update (λ this,
  mkPeer (options this) (peers this) (_lastHeightUpdate this) (_stuck this)
    (statusUpdateInterval this) (_state this) (_status this)
    (_httpActive this) v).

(** [clearInterval(this.statusUpdateInterval)]: the handle stays in its
    field, the runtime stops firing it. *)
Definition clearInterval_statusUpdateInterval : Action :=
  update (λ this,
    mkPeer (options this) (peers this) (_lastHeightUpdate this) (_stuck this)
      (mkTimeout (delay (statusUpdateInterval this)) false)
      (_state this) (_status this)
      (_httpActive this) (_wsServerConnected this)) >>
  effect ClearInterval.

(** [Object.assign(target, source)] on two references: the object [target]
    designates is written in place; the call returns [target]. *)
Definition Object_assign (target source : ref) : Action := λ w,
  (mkWorld
     (<[target := assigned (deref w target) (deref w source)]> (objects w))
     (peer w), []).

(** ** Construction and accessors *)

(** The constructor: field initialisers, the two clients, the HTTP probe,
    the WebSocket connection and the two-second timer.  The callbacks passed
    to the clients and to the timer are the entry points further down. *)
Definition constructor (opts : PeerOptions.t) (ownNode : OwnNodeOptions.t)
  : Peer * list Effect :=
  ({| options := opts;
      peers := [];
      _lastHeightUpdate := 0;
      _stuck := false;
      statusUpdateInterval := {| delay := 2000; active := true |};
      _state := Offline;
      _status := None;
      _httpActive := false;
      _wsServerConnected := false |},
   [ NewWsApi (PeerOptions.ip opts) (PeerOptions.wsPort opts)
       (PeerOptions.httpPort opts) ownNode (PeerOptions.nethash opts) 500;
     NewHttpApi (PeerOptions.ip opts) (PeerOptions.httpPort opts);
     HttpGetNodeStatus;
     WsConnect;
     SetInterval 2000 ]).

(** Truthiness of an optional string: absent and empty are both falsy. *)
Definition truthy_string (s : option string) : bool :=
  match s with
  | Some s => negb (String.eqb s "")
  | None => false
  end.

(** [get nonce()]: "the best nonce value available". *)
Definition nonce (w : World) : option value :=
  match _status (peer w) with
  | Some status => get (deref w status) "nonce"
  | None =>
      if truthy_string (PeerOptions.nonce (options (peer w)))
      then VStr <$> PeerOptions.nonce (options (peer w))
      else None
  end.

Definition state (w : World) : PeerState := _state (peer w).
Definition status (w : World) : option ref := _status (peer w).
Definition httpActive (w : World) : bool := _httpActive (peer w).
Definition wsServerConnected (w : World) : bool := _wsServerConnected (peer w).

(** What the stored status holds at present, if one is stored. *)
Definition snapshot (w : World) : option NodeStatus :=
  deref w <$> _status (peer w).

(** ** Methods *)

(** The guard [!this._status || status.height > this._status.height]. *)
Definition height_advanced (w : World) (status : ref) : bool :=
  match _status (peer w) with
  | None => true
  | Some previous => height (deref w status) >? height (deref w previous)
  end.

(** [handleStatusUpdate(status)], with [now] the value [Date.now()] returns
    during the call (it is read once, in whichever branch runs).  Statement
    by statement: the [if ... else if ...] on the heights and the clock;
    [if (!this._status) this._status = status], which stores the report by
    reference; [this._status = Object.assign(this._status, status)], which
    writes the stored object in place (the field is set by then, its [None]
    case is not reached); and the emission of [StatusUpdated] with the
    report. *)
Definition handleStatusUpdate (now : Z) (status : ref) : Action :=
  (λ w,
     if height_advanced w status then
       (set_lastHeightUpdate now >> set_stuck false) w
     else if negb (_stuck (peer w))
             && (now - _lastHeightUpdate (peer w) >? 20000) then
       (set_stuck true >> emit NodeStuck None) w
     else skip w) >>
  (λ w,
     match _status (peer w) with
     | None => set_status status w
     | Some _ => skip w
     end) >>
  (λ w,
     match _status (peer w) with
     | Some target => (Object_assign target status >> set_status target) w
     | None => skip w
     end) >>
  emit StatusUpdated (Some (PStatus status)).

(** The guards under which the [else if] branch of [handleStatusUpdate]
    runs. *)
Definition raises_stuck (w : World) (now : Z) (status : ref) : bool :=
  negb (height_advanced w status) &&
  (negb (_stuck (peer w)) && (now - _lastHeightUpdate (peer w) >? 20000)).

Definition setWebsocketServerConnected (connected : bool) : Action :=
  set_wsServerConnected connected.

Definition destroy : Action :=
  clearInterval_statusUpdateInterval >> effect WsDestroy.

(** [requestBlocks()] issues the request; its continuation computes a
    de-duplicated list and drops it. *)
Definition requestBlocks : Action := effect WsGetBlocks.
Definition requestBlocks_then : Action := skip.

Definition onClientConnect : Action := set_state Online.
Definition onClientDisconnect : Action := set_state Offline.

Definition onClientError (error : string) : Action := λ w,
  effect (ConsoleError
    ("connection error from " +:+ PeerOptions.ip (options (peer w)) +:+ ":"
       +:+ pretty (PeerOptions.wsPort (options (peer w))) +:+ ": "
       +:+ error)) w.

(** The continuations of the HTTP probe of the constructor. *)
Definition httpProbe_then : Action := set_httpActive true.
Definition httpProbe_catch : Action := skip.

(** *** The polling tick *)

(** The text the rejection handler of [updateStatus] prints. *)
Definition warning (w : World) (err : string) : string :=
  "could not update status of " +:+ PeerOptions.ip (options (peer w)) +:+ ":"
    +:+ pretty (PeerOptions.wsPort (options (peer w))) +:+ ": " +:+ err.

(** The rejection handler that ends the promise chain of [updateStatus]. *)
Definition updateStatus_catch (err : string) : Action := λ w,
  effect (ConsoleWarn (warning w err)) w.

(** The synchronous part of [updateStatus()]: the state guard and the
    request that starts the chain. *)
Definition updateStatus_start : Action := λ w,
  if decide (_state (peer w) ≠ Online) then skip w
  else effect WsGetStatus w.

(** [getStatus()] has settled: the first two [then] handlers, or the
    rejection handler.  A resolved request delivers a reference to the
    status object the client built from the reply. *)
Definition updateStatus_status (now : Z) (r : Settled ref) : Action :=
  match r with
  | Resolved status => handleStatusUpdate now status >> effect WsGetPeers
  | Rejected err => updateStatus_catch err
  end.

(** [getPeers()] has settled: the third [then] handler, or the rejection
    handler.  [res] is the [peers] member of the reply. *)
Definition updateStatus_peers (r : Settled (list PeerInfo)) : Action :=
  match r with
  | Resolved res => set_peers res >> emit PeersUpdated (Some (PPeers res))
  | Rejected err => updateStatus_catch err
  end.

(** One whole tick, from the timer callback to the end of its promise chain,
    given what the two requests settle to.  The second request is issued, and
    [peers_reply] looked at, only when the first one resolved. *)
Definition updateStatus (now : Z) (status_reply : Settled ref)
    (peers_reply : Settled (list PeerInfo)) : Action := λ w,
  if decide (_state (peer w) ≠ Online) then skip w
  else
    (effect WsGetStatus >>
     (match status_reply with
      | Resolved status =>
          handleStatusUpdate now status >> effect WsGetPeers >>
          updateStatus_peers peers_reply
      | Rejected err => updateStatus_catch err
      end)) w.

(** ** Entry points and runs *)

(** Everything that can run on a peer after construction: the public
    methods, the callbacks of the two clients, the timer callback and the
    continuations of the requests it issued.  Continuations are entry points
    of their own because other calls may run between a request and its
    reply. *)
Inductive Call :=
| CallHandleStatusUpdate (now : Z) (status : ref)
| CallSetWebsocketServerConnected (connected : bool)
| CallDestroy
| CallRequestBlocks
| BlocksSettled
| ClientConnect
| ClientDisconnect
| ClientError (error : string)
| HttpProbeSettled (r : Settled unit)
| TimerFired
| StatusSettled (now : Z) (r : Settled ref)
| PeersSettled (r : Settled (list PeerInfo)).

Definition exec (c : Call) : Action :=
  match c with
  | CallHandleStatusUpdate now status => handleStatusUpdate now status
  | CallSetWebsocketServerConnected connected =>
      setWebsocketServerConnected connected
  | CallDestroy => destroy
  | CallRequestBlocks => requestBlocks
  | BlocksSettled => requestBlocks_then
  | ClientConnect => onClientConnect
  | ClientDisconnect => onClientDisconnect
  | ClientError error => onClientError error
  | HttpProbeSettled (Resolved _) => httpProbe_then
  | HttpProbeSettled (Rejected _) => httpProbe_catch
  | TimerFired => λ w,
      if active (statusUpdateInterval (peer w)) then updateStatus_start w
      else skip w
  | StatusSettled now r => updateStatus_status now r
  | PeersSettled r => updateStatus_peers r
  end.

(** The calls that ingest a status report, with the time and the report. *)
Definition ingests (c : Call) : option (Z * ref) :=
  match c with
  | CallHandleStatusUpdate now status => Some (now, status)
  | StatusSettled now (Resolved status) => Some (now, status)
  | _ => None
  end.

Fixpoint run (cs : list Call) : Action :=
  match cs with
  | [] => skip
  | c :: cs => exec c >> run cs
  end.

(** Ingesting a sequence of timed status reports, oldest first. *)
Fixpoint ingest (reports : list (Z * ref)) : Action :=
  match reports with
  | [] => skip
  | (now, status) :: reports => handleStatusUpdate now status >> ingest reports
  end.

(** What each report of a sequence holds at the time it is ingested. *)
Fixpoint received (reports : list (Z * ref)) (w : World) : list NodeStatus :=
  match reports with
  | [] => []
  | (now, status) :: reports =>
      deref w status :: received reports (handleStatusUpdate now status w).1
  end.

(** ** Observations on effect lists *)

Definition is_emit (event : PeerEvent) (e : Effect) : bool :=
  match e with
  | Emit event' _ => bool_decide (event' = event)
  | _ => false
  end.

(** How many times [event] is emitted in an effect list. *)
Definition emitted (event : PeerEvent) (out : list Effect) : nat :=
  length (filter (λ e, is_emit event e = true) out).

(** ** What the specification says, in its own words *)

(** The field-wise merge of a sequence of reports, oldest first: the value
    of field [k] in the most recent report that has it. *)
Fixpoint merged_field (k : string) (reports : list NodeStatus) : option value :=
  match reports with
  | [] => None
  | r :: later =>
      match merged_field k later with
      | Some v => Some v
      | None => get r k
      end
  end.

(** The condition under which a report makes the peer stuck: the flag is
    down, a previous status exists whose height the report does not exceed,
    and more than 20000 ms have passed since the last height advance. *)
Definition stuck_condition (w : World) (now : Z) (status : ref) : Prop :=
  _stuck (peer w) = false ∧
  (∃ previous, _status (peer w) = Some previous ∧
     height (deref w status) ≤ height (deref w previous)) ∧
  20000 < now - _lastHeightUpdate (peer w).

(** The condition under which a report counts as progress. *)
Definition progress_condition (w : World) (status : ref) : Prop :=
  _status (peer w) = None ∨
  ∃ previous, _status (peer w) = Some previous ∧
    height (deref w previous) < height (deref w status).

(** Along a run of ingestions: how often a report found the flag up and
    lowered it again, that is, how many stuck episodes ended. *)
Fixpoint recoveries (reports : list (Z * ref)) (w : World) : nat :=
  match reports with
  | [] => 0%nat
  | (now, status) :: reports =>
      (Nat.b2n (_stuck (peer w) && height_advanced w status)
       + recoveries reports (handleStatusUpdate now status w).1)%nat
  end.

(** ** What a sequence of calls leaves in the fields *)

(** The connection state a call leaves: only the connect and disconnect
    callbacks assign [_state]. *)
Definition connection_after (c : Call) (st : PeerState) : PeerState :=
  match c with
  | ClientConnect => Online
  | ClientDisconnect => Offline
  | _ => st
  end.

Fixpoint state_after (calls : list Call) (st : PeerState) : PeerState :=
  match calls with
  | [] => st
  | c :: calls => state_after calls (connection_after c st)
  end.

(** The peer list a call leaves: only a resolved peer-list reply assigns
    [peers]. *)
Definition peers_written (c : Call) (ps : list PeerInfo) : list PeerInfo :=
  match c with
  | PeersSettled (Resolved res) => res
  | _ => ps
  end.

Fixpoint peers_after (calls : list Call) (ps : list PeerInfo) : list PeerInfo :=
  match calls with
  | [] => ps
  | c :: calls => peers_after calls (peers_written c ps)
  end.

(** The call is the resolution of the HTTP probe. *)
Definition probe_resolved (c : Call) : bool :=
  match c with
  | HttpProbeSettled (Resolved _) => true
  | _ => false
  end.

Definition is_destroy (c : Call) : bool :=
  match c with
  | CallDestroy => true
  | _ => false
  end.

(** ** Sample data *)

Module Sample.
(** A peer configured with the identifier ["A"]. *)
Definition options : PeerOptions.t :=
  PeerOptions.mk "10.0.0.7" 7001 7000 "198f2b61" (Some "A").

Definition ownNode : OwnNodeOptions.t :=
  OwnNodeOptions.mk 7000 7001 "self" "linux" "1.0.0".

(** A report at height 10 with no identifier field. *)
Definition anonymous10 : NodeStatus :=
  mkNodeStatus 10 {[ "version" := VStr "1.0.0" ]}.

(** A report at height 11 that names the node ["B"]. *)
Definition named11 : NodeStatus :=
  mkNodeStatus 11 {[ "nonce" := VStr "B" ]}.

(** Four status objects as the WebSocket client would deliver them: three
    replies at height 10 and one at height 11. *)
Definition replies : gmap ref NodeStatus :=
  {[ 1%positive := anonymous10; 2%positive := anonymous10;
     3%positive := anonymous10; 4%positive := named11 ]}.

(** The peer right after construction. *)
Definition fresh : World := mkWorld replies (constructor options ownNode).1.

(** The same peer once its WebSocket has connected. *)
Definition online : World := (onClientConnect fresh).1.

(** The three replies at height 10, a little over twenty seconds apart. *)
Definition stalled : list (Z * ref) :=
  [(1000, 1%positive); (21001, 2%positive); (41002, 3%positive)].

(** The peer after [stalled]: it holds a status and is flagged stuck. *)
Definition stuck : World := (ingest stalled fresh).1.

Definition somePeers : list PeerInfo :=
  [ {[ "ip" := VStr "10.0.0.8"; "wsPort" := VNum 7001 ]} ].
End Sample.

(** ** Basic facts *)

(** Unfolds the methods that are plain field writes and effects. *)
Ltac unfold_simple_actions :=
  unfold setWebsocketServerConnected, destroy, requestBlocks,
    requestBlocks_then, onClientConnect, onClientDisconnect, onClientError,
    httpProbe_then, httpProbe_catch, updateStatus_catch,
    clearInterval_statusUpdateInterval, set_peers, set_state, set_httpActive,
    set_wsServerConnected, update, emit, effect, skip, seq;
  cbn [fst snd peer objects options peers _lastHeightUpdate _stuck
       statusUpdateInterval _state _status _httpActive _wsServerConnected app].

Lemma seq_fst (a b : Action) w : ((a >> b) w).1 = (b (a w).1).1.
Proof. unfold seq. destruct (a w) as [w1 out1]. cbn. by destruct (b w1). Qed.

Lemma seq_snd (a b : Action) w : ((a >> b) w).2 = (a w).2 ++ (b (a w).1).2.
Proof. unfold seq. destruct (a w) as [w1 out1]. cbn. by destruct (b w1). Qed.

(** Reading a field of a merged object. *)
Lemma get_assigned target source k :
  get (assigned target source) k =
  match get source k with
  | Some v => Some v
  | None => get target k
  end.
Proof.
  unfold get, props, assigned. cbn.
  destruct (decide (k = "height")) as [->|Hk].
  - by rewrite !lookup_insert_eq.
  - rewrite !lookup_insert_ne by done.
    rewrite lookup_union. by destruct (fields source !! k), (fields target !! k).
Qed.

Lemma props_assigned target source :
  props (assigned target source) = props source ∪ props target.
Proof.
  apply map_eq. intros k.
  change (get (assigned target source) k = (props source ∪ props target) !! k).
  rewrite get_assigned, lookup_union. unfold get.
  by destruct (props source !! k), (props target !! k).
Qed.

Lemma assigned_self s : assigned s s = s.
Proof.
  destruct s as [h f]. unfold assigned. cbn. f_equal.
  apply map_eq. intros k. rewrite lookup_union. by destruct (f !! k).
Qed.

Lemma height_advanced_progress w status :
  height_advanced w status = true ↔ progress_condition w status.
Proof.
  unfold height_advanced, progress_condition.
  destruct (_status (peer w)) as [previous|]; [|by intuition].
  rewrite Z.gtb_lt. split.
  - intros H. right. by exists previous.
  - intros [H|(previous' & H & Hlt)]; [done|]. by simplify_eq.
Qed.

Lemma height_not_advanced w status :
  height_advanced w status = false ↔
  ∃ previous, _status (peer w) = Some previous ∧
    height (deref w status) ≤ height (deref w previous).
Proof.
  unfold height_advanced.
  destruct (_status (peer w)) as [previous|].
  - rewrite Z.gtb_ltb, Z.ltb_ge. split.
    + intros H. by exists previous.
    + intros (previous' & H & Hle). by simplify_eq.
  - split; [done|]. by intros (? & ? & _).
Qed.

(** The three ways a call of [handleStatusUpdate] can go.  In each, the
    object written is the stored status, or the report itself when none was
    stored, and the peer holds a reference to that object afterwards. *)
Lemma handleStatusUpdate_cases now status w :
  handleStatusUpdate now status w =
  let this := peer w in
  let target := default status (_status this) in
  let store :=
    <[target := assigned (deref w target) (deref w status)]> (objects w) in
  let updated := Emit StatusUpdated (Some (PStatus status)) in
  if height_advanced w status then
    (mkWorld store
       (mkPeer (options this) (peers this) now false
          (statusUpdateInterval this) (_state this) (Some target)
          (_httpActive this) (_wsServerConnected this)), [updated])
  else if negb (_stuck this) && (now - _lastHeightUpdate this >? 20000) then
    (mkWorld store
       (mkPeer (options this) (peers this) (_lastHeightUpdate this) true
          (statusUpdateInterval this) (_state this) (Some target)
          (_httpActive this) (_wsServerConnected this)),
     [Emit NodeStuck None; updated])
  else
    (mkWorld store
       (mkPeer (options this) (peers this) (_lastHeightUpdate this)
          (_stuck this)
          (statusUpdateInterval this) (_state this) (Some target)
          (_httpActive this) (_wsServerConnected this)), [updated]).
Proof.
  unfold handleStatusUpdate, seq, height_advanced, skip, emit, effect,
    set_status, set_stuck, set_lastHeightUpdate, Object_assign, update, deref.
  cbn zeta.
  destruct (_status (peer w)) as [previous|] eqn:Hstored;
    [destruct (height (objects w !!! status)
               >? height (objects w !!! previous));
       [|destruct (negb (_stuck (peer w))
                   && (now - _lastHeightUpdate (peer w) >? 20000))]|];
    cbn [fst snd peer objects default app options peers
         _lastHeightUpdate _stuck statusUpdateInterval _state _status
         _httpActive _wsServerConnected];
    rewrite ?Hstored; reflexivity.
Qed.

Lemma handleStatusUpdate_status now status w :
  _status (peer (handleStatusUpdate now status w).1) =
  Some (default status (_status (peer w))).
Proof.
  rewrite handleStatusUpdate_cases. cbn zeta.
  repeat case_match; reflexivity.
Qed.

Lemma handleStatusUpdate_objects now status w :
  objects (handleStatusUpdate now status w).1 =
  let target := default status (_status (peer w)) in
  <[target := assigned (deref w target) (deref w status)]> (objects w).
Proof.
  rewrite handleStatusUpdate_cases. cbn zeta.
  repeat case_match; reflexivity.
Qed.

(** The stored status after an ingestion holds the merge of what was stored
    before with the report. *)
Lemma handleStatusUpdate_snapshot now status w :
  snapshot (handleStatusUpdate now status w).1 =
  Some (assigned (default (deref w status) (snapshot w)) (deref w status)).
Proof.
  unfold snapshot, deref.
  rewrite handleStatusUpdate_status, handleStatusUpdate_objects. cbn.
  rewrite lookup_total_insert_eq. by destruct (_status (peer w)).
Qed.

(** An ingestion writes one object only, and leaves the report as it was
    (when the report is the object written, it is merged with itself). *)
Lemma handleStatusUpdate_deref_other now status w r :
  r ≠ default status (_status (peer w)) →
  deref (handleStatusUpdate now status w).1 r = deref w r.
Proof.
  intros H. unfold deref. rewrite handleStatusUpdate_objects. cbn.
  by rewrite lookup_total_insert_ne.
Qed.

Lemma handleStatusUpdate_deref_report now status w :
  deref (handleStatusUpdate now status w).1 status = deref w status.
Proof.
  destruct (decide (status = default status (_status (peer w)))) as [Heq|Hne].
  - unfold deref. rewrite handleStatusUpdate_objects. cbn zeta.
    rewrite <- Heq, lookup_total_insert_eq. apply assigned_self.
  - by apply handleStatusUpdate_deref_other.
Qed.

Lemma handleStatusUpdate_out now status w :
  (handleStatusUpdate now status w).2 =
  (if raises_stuck w now status then [Emit NodeStuck None] else [])
  ++ [Emit StatusUpdated (Some (PStatus status))].
Proof.
  rewrite handleStatusUpdate_cases. unfold raises_stuck. cbn zeta.
  destruct (height_advanced w status); [reflexivity|].
  destruct (negb (_stuck (peer w))
            && (now - _lastHeightUpdate (peer w) >? 20000)); reflexivity.
Qed.

Lemma handleStatusUpdate_stuck now status w :
  _stuck (peer (handleStatusUpdate now status w).1) =
  negb (height_advanced w status) &&
  (_stuck (peer w) || (now - _lastHeightUpdate (peer w) >? 20000)).
Proof.
  rewrite handleStatusUpdate_cases. cbn zeta.
  destruct (height_advanced w status); [reflexivity|].
  destruct (_stuck (peer w)), (now - _lastHeightUpdate (peer w) >? 20000);
    reflexivity.
Qed.

Lemma handleStatusUpdate_lastHeightUpdate now status w :
  _lastHeightUpdate (peer (handleStatusUpdate now status w).1) =
  if height_advanced w status then now else _lastHeightUpdate (peer w).
Proof.
  rewrite handleStatusUpdate_cases. cbn zeta.
  repeat case_match; reflexivity.
Qed.

(** The fields of the peer an ingestion does not write. *)
Lemma handleStatusUpdate_frame now status w :
  let r := handleStatusUpdate now status w in
  options (peer r.1) = options (peer w) ∧
  peers (peer r.1) = peers (peer w) ∧
  statusUpdateInterval (peer r.1) = statusUpdateInterval (peer w) ∧
  _state (peer r.1) = _state (peer w) ∧
  _httpActive (peer r.1) = _httpActive (peer w) ∧
  _wsServerConnected (peer r.1) = _wsServerConnected (peer w).
Proof.
  cbn zeta. rewrite handleStatusUpdate_cases. cbn zeta.
  repeat case_match; cbn; done.
Qed.

Lemma raises_stuck_spec w now status :
  raises_stuck w now status = true ↔ stuck_condition w now status.
Proof.
  unfold raises_stuck, stuck_condition.
  rewrite !andb_true_iff, !negb_true_iff, height_not_advanced, Z.gtb_lt.
  tauto.
Qed.

Lemma emitted_app event out1 out2 :
  emitted event (out1 ++ out2) = (emitted event out1 + emitted event out2)%nat.
Proof. unfold emitted. by rewrite filter_app, length_app. Qed.

Lemma handleStatusUpdate_emitted_stuck now status w :
  emitted NodeStuck (handleStatusUpdate now status w).2 =
  Nat.b2n (raises_stuck w now status).
Proof.
  rewrite handleStatusUpdate_out.
  destruct (raises_stuck w now status); reflexivity.
Qed.

Lemma stuck_event_elem (b : bool) payload :
  Emit NodeStuck None ∈
    (if b then [Emit NodeStuck None] else []) ++ [Emit StatusUpdated payload]
  ↔ b = true.
Proof.
  destruct b; cbn.
  - rewrite elem_of_cons. intuition.
  - rewrite list_elem_of_singleton. split; intros H; discriminate H.
Qed.

Lemma handleStatusUpdate_last now status w :
  last (handleStatusUpdate now status w).2 =
  Some (Emit StatusUpdated (Some (PStatus status))).
Proof. rewrite handleStatusUpdate_out. by rewrite last_snoc. Qed.

Lemma handleStatusUpdate_payload now status w payload :
  Emit StatusUpdated payload ∈ (handleStatusUpdate now status w).2 →
  payload = Some (PStatus status).
Proof.
  rewrite handleStatusUpdate_out, elem_of_app, list_elem_of_singleton.
  intros [H|H]; [|by injection H].
  destruct (raises_stuck w now status).
  - apply list_elem_of_singleton in H. discriminate H.
  - by apply elem_of_nil in H.
Qed.

Lemma handleStatusUpdate_no_other_effect now status w e :
  e ∈ (handleStatusUpdate now status w).2 →
  e = Emit NodeStuck None ∨ e = Emit StatusUpdated (Some (PStatus status)).
Proof.
  rewrite handleStatusUpdate_out, elem_of_app, list_elem_of_singleton.
  intros [H|H]; [left|by right].
  destruct (raises_stuck w now status).
  - by apply list_elem_of_singleton in H.
  - by apply elem_of_nil in H.
Qed.

(** ** Identifier resolution *)


Lemma nonce_with_status w stored :
  _status (peer w) = Some stored →
  nonce w = snapshot w ≫= λ s, get s "nonce".
Proof. intros H. unfold nonce, snapshot. by rewrite H. Qed.



(** ** Stuck detection *)

(** Along any run of ingestions, the events raised and the episodes open at
    the start balance the episodes ended and the one open at the end. *)
Lemma ingest_stuck_balance reports : ∀ w,
  (emitted NodeStuck (ingest reports w).2 + Nat.b2n (_stuck (peer w)) =
   recoveries reports w + Nat.b2n (_stuck (peer (ingest reports w).1)))%nat.
Proof.
  induction reports as [|[now status] reports IH]; intros w.
  - cbn. lia.
  - cbn [ingest recoveries].
    rewrite seq_fst, seq_snd, emitted_app, handleStatusUpdate_emitted_stuck.
    specialize (IH (handleStatusUpdate now status w).1).
    rewrite handleStatusUpdate_stuck in IH. unfold raises_stuck.
    destruct (height_advanced w status), (_stuck (peer w)),
      (now - _lastHeightUpdate (peer w) >? 20000); cbn in IH |- *; lia.
Qed.

(** C2: the stuck flag is edge-triggered.  A call of [handleStatusUpdate]
    emits [NodeStuck], and raises the flag from false to true, exactly when
    the flag was false, a previous status exists whose height is at least
    the report's, and more than 20000 ms have passed since the last recorded
    height advance; a call never emits the event twice, and never emits it
    while the flag is already up.  Over any sequence of reports, the number
    of [NodeStuck] events equals the number of stuck episodes entered: the
    episodes that ended in the sequence plus the one still open at its end,
    less the one already open at its start; in particular, while the flag
    is up and no report lowers it, no further event is emitted. *)
Theorem stuck_edge_triggered :
  (∀ w now status,
     let r := handleStatusUpdate now status w in
     (Emit NodeStuck None ∈ r.2 ↔ stuck_condition w now status) ∧
     (_stuck (peer w) = false ∧ _stuck (peer r.1) = true
      ↔ stuck_condition w now status) ∧
     (emitted NodeStuck r.2 ≤ 1)%nat ∧
     (_stuck (peer w) = true → emitted NodeStuck r.2 = 0%nat)) ∧
  (∀ reports w,
     (emitted NodeStuck (ingest reports w).2 + Nat.b2n (_stuck (peer w)) =
      recoveries reports w + Nat.b2n (_stuck (peer (ingest reports w).1)))%nat) ∧
  (∀ reports w,
     _stuck (peer w) = true → recoveries reports w = 0%nat →
     emitted NodeStuck (ingest reports w).2 = 0%nat).
Proof.
  split; [|split; [intros; apply ingest_stuck_balance|]].
  2: { intros reports w Hup Hnone.
       pose proof (ingest_stuck_balance reports w) as H.
       rewrite Hup, Hnone in H.
       destruct (_stuck (peer (ingest reports w).1)); cbn in H; lia. }
  intros w now status r.
  rewrite <- raises_stuck_spec. subst r.
  rewrite handleStatusUpdate_emitted_stuck, handleStatusUpdate_out,
    handleStatusUpdate_stuck.
  unfold raises_stuck.
  split; [apply stuck_event_elem|].
  destruct (height_advanced w status), (_stuck (peer w)),
    (now - _lastHeightUpdate (peer w) >? 20000); cbn;
    (split; [|split]); first [lia | done | intuition congruence].
Qed.

(** Three reports at height 10, each more than twenty seconds after the one
    before, raise one [NodeStuck] event in all; the second report raises it. *)
Example stalled_once :
  emitted NodeStuck (ingest Sample.stalled Sample.fresh).2 = 1%nat ∧
  emitted NodeStuck (ingest (take 2 Sample.stalled) Sample.fresh).2 = 1%nat ∧
  emitted NodeStuck (ingest (take 1 Sample.stalled) Sample.fresh).2 = 0%nat.
Proof. by vm_compute. Qed.

(** ** Merging *)

Lemma handleStatusUpdate_get now report w k :
  (snapshot (handleStatusUpdate now report w).1 ≫= λ s, get s k) =
  match get (deref w report) k with
  | Some v => Some v
  | None => snapshot w ≫= λ s, get s k
  end.
Proof.
  rewrite handleStatusUpdate_snapshot. cbn [mbind option_bind].
  rewrite get_assigned.
  destruct (get (deref w report) k) eqn:Hk; [done|].
  by destruct (snapshot w).
Qed.

Lemma ingest_merged_field reports : ∀ w k,
  (snapshot (ingest reports w).1 ≫= λ s, get s k) =
  merged_field k (option_list (snapshot w) ++ received reports w).
Proof.
  induction reports as [|[now report] reports IH]; intros w k.
  - cbn. rewrite app_nil_r. by destruct (snapshot w).
  - cbn [ingest received]. rewrite seq_fst, IH, handleStatusUpdate_snapshot.
    destruct (snapshot w) as [previous|]; simpl;
      rewrite get_assigned;
      destruct (merged_field k
                  (received reports (handleStatusUpdate now report w).1));
      try done.
    by destruct (get (deref w report) k).
Qed.

(** Reports that are objects of their own, distinct from one another and
    from the stored status, reach the peer with the contents they have at
    the start: merging writes the stored object only. *)
Lemma received_distinct reports : ∀ w,
  NoDup reports.*2 →
  (∀ stored, _status (peer w) = Some stored → stored ∉ reports.*2) →
  received reports w = deref w <$> reports.*2.
Proof.
  induction reports as [|[now report] reports IH]; intros w Hdup Hstored;
    [reflexivity|].
  cbn [received]. cbn in Hdup, Hstored |- *. f_equal.
  apply NoDup_cons in Hdup as [Hreport Hdup].
  set (target := default report (_status (peer w))).
  assert (Htarget : target ∉ reports.*2).
  { subst target. destruct (_status (peer w)) as [stored|] eqn:Hs; cbn.
    - specialize (Hstored stored eq_refl).
      by apply not_elem_of_cons in Hstored as [_ Hstored].
    - done. }
  rewrite IH.
  - apply list_fmap_ext. intros i r Hr.
    apply handleStatusUpdate_deref_other. fold target.
    intros ->. apply Htarget. by eapply list_elem_of_lookup_2.
  - done.
  - intros stored. rewrite handleStatusUpdate_status. by intros [= <-].
Qed.

(** C3: the stored status is the field-wise shallow merge of the reports
    received.  Each ingestion leaves every field of the stored status at the
    report's value when the report has the field and at its stored value
    otherwise; hence after any sequence of reports every field holds the
    value of the most recent report that had it (the status stored
    beforehand counting as the oldest report); and for a newly constructed
    peer fed reports that are objects of their own, the stored status is the
    merge of exactly those reports. *)
Theorem status_is_merge_of_reports :
  (∀ w now report k,
     (snapshot (handleStatusUpdate now report w).1 ≫= λ s, get s k) =
     match get (deref w report) k with
     | Some v => Some v
     | None => snapshot w ≫= λ s, get s k
     end) ∧
  (∀ reports w k,
     (snapshot (ingest reports w).1 ≫= λ s, get s k) =
     merged_field k (option_list (snapshot w) ++ received reports w)) ∧
  (∀ store opts ownNode reports k,
     NoDup reports.*2 →
     let w := mkWorld store (constructor opts ownNode).1 in
     (snapshot (ingest reports w).1 ≫= λ s, get s k) =
     merged_field k (deref w <$> reports.*2)).
Proof.
  split; [|split].
  - intros. apply handleStatusUpdate_get.
  - intros. apply ingest_merged_field.
  - intros store opts ownNode reports k Hdup w.
    rewrite ingest_merged_field, received_distinct; [done..|].
    intros stored H. discriminate H.
Qed.

(** A field reported once stays when later reports leave it out, and the
    latest value of a field reported twice wins. *)
Example merge_keeps_and_overwrites :
  let w := (ingest [(1000, 1%positive); (3000, 4%positive)] Sample.fresh).1 in
  (snapshot w ≫= λ s, get s "version") = Some (VStr "1.0.0") ∧
  (snapshot w ≫= λ s, get s "nonce") = Some (VStr "B") ∧
  (snapshot w ≫= λ s, get s "height") = Some (VNum 11).
Proof. by vm_compute. Qed.

(** ** Order of the steps of an ingestion *)

(** C4: within one call of [handleStatusUpdate] the height test reads the
    status stored before the call: with a stored status, the report's height
    is compared with the stored height on every call, progress resetting the
    clock and the flag, no progress leaving the clock and raising the flag
    once the 20000 ms have passed; with none stored the call counts as
    progress.  Only then is the report merged into the stored status, whose
    height is the report's from then on; the object kept is the one stored
    before, or the report when there was none.  The call ends by emitting
    [StatusUpdated] once; the payload is the report passed in, which holds
    after the call what it held before. *)
Theorem handleStatusUpdate_order (w : World) (now : Z) (status : ref) :
  let r := handleStatusUpdate now status w in
  match _status (peer w) with
  | Some previous =>
      if height (deref w status) >? height (deref w previous)
      then _lastHeightUpdate (peer r.1) = now ∧ _stuck (peer r.1) = false
      else _lastHeightUpdate (peer r.1) = _lastHeightUpdate (peer w) ∧
           _stuck (peer r.1) =
             _stuck (peer w) || (now - _lastHeightUpdate (peer w) >? 20000)
  | None => _lastHeightUpdate (peer r.1) = now ∧ _stuck (peer r.1) = false
  end ∧
  _status (peer r.1) = Some (default status (_status (peer w))) ∧
  snapshot r.1 =
    Some (assigned (default (deref w status) (snapshot w)) (deref w status)) ∧
  height <$> snapshot r.1 = Some (height (deref w status)) ∧
  last r.2 = Some (Emit StatusUpdated (Some (PStatus status))) ∧
  emitted StatusUpdated r.2 = 1%nat ∧
  (∀ payload, Emit StatusUpdated payload ∈ r.2 → payload = Some (PStatus status)) ∧
  deref r.1 status = deref w status.
Proof.
  intros r. subst r.
  split; [|split; [|split; [|split; [|split; [|split; [|split]]]]]].
  - rewrite handleStatusUpdate_lastHeightUpdate, handleStatusUpdate_stuck.
    unfold height_advanced.
    destruct (_status (peer w)) as [previous|]; [|done].
    by destruct (height (deref w status) >? height (deref w previous)).
  - apply handleStatusUpdate_status.
  - apply handleStatusUpdate_snapshot.
  - by rewrite handleStatusUpdate_snapshot.
  - apply handleStatusUpdate_last.
  - rewrite handleStatusUpdate_out.
    by destruct (raises_stuck w now status).
  - apply handleStatusUpdate_payload.
  - apply handleStatusUpdate_deref_report.
Qed.

(** The payload is the report even where the merged status differs from it:
    here the stored status is another object, and it keeps the version the
    report does not mention. *)
Example payload_is_report_not_merge :
  let first := (handleStatusUpdate 1000 1%positive Sample.fresh).1 in
  let r := handleStatusUpdate 3000 4%positive first in
  last r.2 = Some (Emit StatusUpdated (Some (PStatus 4%positive))) ∧
  status r.1 = Some 1%positive ∧
  deref r.1 4%positive = Sample.named11 ∧
  get (deref r.1 4%positive) "version" = None ∧
  (snapshot r.1 ≫= λ s, get s "version") = Some (VStr "1.0.0").
Proof. by vm_compute. Qed.

(** The first status a peer ingests is stored by reference: it is both the
    payload of its own event and the object later reports are merged into. *)
Lemma first_status_is_report now report w :
  _status (peer w) = None →
  status (handleStatusUpdate now report w).1 = Some report ∧
  snapshot (handleStatusUpdate now report w).1 = Some (deref w report).
Proof.
  intros H. unfold status.
  rewrite handleStatusUpdate_status, handleStatusUpdate_snapshot.
  unfold snapshot. rewrite H. cbn. by rewrite assigned_self.
Qed.

Example first_report_object_is_written_later :
  let first := (handleStatusUpdate 1000 1%positive Sample.fresh).1 in
  let second := (handleStatusUpdate 3000 4%positive first).1 in
  deref first 1%positive = Sample.anonymous10 ∧
  deref second 1%positive = assigned Sample.anonymous10 Sample.named11.
Proof. by vm_compute. Qed.

(** C5: when no status is stored, or the report's height is strictly greater
    than the stored one, the call records the current time as the last height
    advance, lowers the stuck flag, and its only effect is the
    [StatusUpdated] event: nothing announces the recovery. *)
Theorem progress_resets_silently (w : World) (now : Z) (status : ref) :
  progress_condition w status →
  let r := handleStatusUpdate now status w in
  _lastHeightUpdate (peer r.1) = now ∧
  _stuck (peer r.1) = false ∧
  r.2 = [Emit StatusUpdated (Some (PStatus status))].
Proof.
  intros H%height_advanced_progress r. subst r.
  rewrite handleStatusUpdate_cases. cbn zeta. rewrite H. done.
Qed.

Lemma progress_resets_silently_witness :
  _stuck (peer Sample.stuck) = true ∧
  let r := handleStatusUpdate 50000 4%positive Sample.stuck in
  _lastHeightUpdate (peer r.1) = 50000 ∧
  _stuck (peer r.1) = false ∧
  r.2 = [Emit StatusUpdated (Some (PStatus 4%positive))].
Proof.
  split; [reflexivity|].
  apply (progress_resets_silently Sample.stuck 50000 4%positive).
  right. exists 1%positive. split; [reflexivity|]. by vm_compute.
Defined.

(** ** The stored status is never dropped *)

(** A call that is not an ingestion leaves every status object, and the
    reference the peer holds, alone. *)
Lemma exec_not_ingesting c w :
  ingests c = None →
  objects (exec c w).1 = objects w ∧
  _status (peer (exec c w).1) = _status (peer w).
Proof.
  intros H.
  destruct c as [now report| | | | | | | |[]| |now [report|]|[]];
    try discriminate H; cbn [exec updateStatus_status updateStatus_peers];
    unfold updateStatus_start; unfold_simple_actions; try done.
  by destruct (active (statusUpdateInterval (peer w))),
    (decide (_state (peer w) ≠ Online)).
Qed.

Lemma exec_ingesting c w now report :
  ingests c = Some (now, report) →
  objects (exec c w).1 = objects (handleStatusUpdate now report w).1 ∧
  _status (peer (exec c w).1) =
    _status (peer (handleStatusUpdate now report w).1).
Proof.
  intros H.
  destruct c as [now' report'| | | | | | | |[]| |now' [report'|]|[]];
    try discriminate H; injection H as -> ->; cbn [exec updateStatus_status].
  - done.
  - rewrite seq_fst. by unfold effect.
Qed.

Lemma exec_status c w stored :
  _status (peer w) = Some stored →
  _status (peer (exec c w).1) = Some stored.
Proof.
  intros H. destruct (ingests c) as [[now report]|] eqn:Hc.
  - destruct (exec_ingesting c w now report Hc) as [_ ->].
    by rewrite handleStatusUpdate_status, H.
  - destruct (exec_not_ingesting c w Hc) as [_ ->]. done.
Qed.

Lemma exec_snapshot c w old :
  snapshot w = Some old →
  snapshot (exec c w).1 = Some old ∨
  ∃ report, snapshot (exec c w).1 = Some (assigned old (deref w report)).
Proof.
  intros H. destruct (ingests c) as [[now report]|] eqn:Hc.
  - right. exists report.
    destruct (exec_ingesting c w now report Hc) as [Hobjects Hstatus].
    transitivity (snapshot (handleStatusUpdate now report w).1).
    + unfold snapshot, deref. by rewrite Hobjects, Hstatus.
    + by rewrite handleStatusUpdate_snapshot, H.
  - left. destruct (exec_not_ingesting c w Hc) as [Hobjects Hstatus].
    rewrite <- H. unfold snapshot, deref. by rewrite Hobjects, Hstatus.
Qed.

Lemma run_status calls : ∀ w stored,
  _status (peer w) = Some stored →
  _status (peer (run calls w).1) = Some stored.
Proof.
  induction calls as [|c calls IH]; intros w stored H; [exact H|].
  cbn [run]. rewrite seq_fst. by apply IH, exec_status.
Qed.

(** C6: once a status report has been ingested the stored status is never
    undefined again.  Whatever calls follow an ingestion (further reports,
    timer ticks and the replies to their requests, connection callbacks, the
    incoming-link setter, the block request, even [destroy]), a status is
    stored after them.  No call replaces the reference the peer holds once
    it holds one, and each call either leaves the contents of the stored
    status as they are or merges a report into them. *)
Theorem status_never_lost :
  (∀ w now report calls,
     is_Some (status (run calls (handleStatusUpdate now report w).1).1)) ∧
  (∀ c w stored,
     _status (peer w) = Some stored →
     _status (peer (exec c w).1) = Some stored) ∧
  (∀ c w old,
     snapshot w = Some old →
     snapshot (exec c w).1 = Some old ∨
     ∃ report, snapshot (exec c w).1 = Some (assigned old (deref w report))).
Proof.
  split; [|split; [apply exec_status|apply exec_snapshot]].
  intros w now report calls. unfold status.
  erewrite run_status; [done|]. apply handleStatusUpdate_status.
Qed.

(** ** The polling tick *)

(** C7: a failing fetch aborts the rest of its tick and nothing more.  When
    the status fetch fails, the tick leaves the world exactly as it was and
    its effects are the request and one console warning.  When the peer-list
    fetch fails, the world is as the status ingestion left it, the peer list
    is untouched, no [PeersUpdated] is emitted and the warning is the last
    effect.  In both cases the timer is neither cleared nor changed, and the
    next firing of the timer issues its status request as usual. *)
Theorem failed_fetch_aborts_tick (w : World) (now : Z) :
  _state (peer w) = Online →
  (∀ err peers_reply,
     let r := updateStatus now (Rejected err) peers_reply w in
     r = (w, [WsGetStatus; ConsoleWarn (warning w err)]) ∧
     (exec TimerFired r.1).2 = (exec TimerFired w).2) ∧
  (∀ status err,
     let h := handleStatusUpdate now status w in
     let r := updateStatus now (Resolved status) (Rejected err) w in
     r = (h.1, WsGetStatus :: h.2 ++ [WsGetPeers; ConsoleWarn (warning w err)]) ∧
     peers (peer r.1) = peers (peer w) ∧
     emitted PeersUpdated r.2 = 0%nat ∧
     statusUpdateInterval (peer r.1) = statusUpdateInterval (peer w) ∧
     (ClearInterval ∉ r.2) ∧
     (exec TimerFired r.1).2 = (exec TimerFired w).2).
Proof.
  intros Hon.
  assert (Htick : ∀ reply_s reply_p,
    updateStatus now reply_s reply_p w =
    (effect WsGetStatus >>
     (match reply_s with
      | Resolved status =>
          handleStatusUpdate now status >> effect WsGetPeers >>
          updateStatus_peers reply_p
      | Rejected err => updateStatus_catch err
      end)) w).
  { intros. unfold updateStatus. rewrite Hon. by rewrite decide_False by auto. }
  split.
  - intros err peers_reply r. subst r. by rewrite Htick.
  - intros status err h r.
    destruct (handleStatusUpdate_frame now status w)
      as (Hopts & Hpeers & Htimer & Hstate & _).
    assert (Hr : r = (h.1, WsGetStatus :: h.2
                        ++ [WsGetPeers; ConsoleWarn (warning w err)])).
    { subst r h. rewrite Htick. unfold seq at 1 2 3.
      cbn [effect updateStatus_peers updateStatus_catch].
      destruct (handleStatusUpdate now status w) as [w1 out1] eqn:Hh.
      cbn [fst snd app] in *. unfold warning. rewrite Hopts.
      by rewrite <- app_assoc. }
    rewrite Hr. cbn [fst snd]. subst h.
    split; [done|]. split; [done|].
    split.
    { change (WsGetStatus :: ?l) with ([WsGetStatus] ++ l).
      rewrite !emitted_app, handleStatusUpdate_out.
      by destruct (raises_stuck w now status). }
    split; [done|]. split.
    { rewrite not_elem_of_cons, not_elem_of_app. split; [done|]. split.
      - intros [H|H]%handleStatusUpdate_no_other_effect; discriminate H.
      - rewrite !not_elem_of_cons. split_and!; try done. apply not_elem_of_nil. }
    cbn [exec]. unfold updateStatus_start. rewrite Htimer, Hstate.
    by destruct (active (statusUpdateInterval (peer w))),
      (decide (_state (peer w) ≠ Online)).
Qed.

Lemma failed_fetch_aborts_tick_witness :
  _state (peer Sample.online) = Online ∧
  updateStatus 1000 (Rejected "timeout") (Resolved Sample.somePeers)
    Sample.online =
  (Sample.online,
   [WsGetStatus;
    ConsoleWarn "could not update status of 10.0.0.7:7001: timeout"]).
Proof.
  split; [reflexivity|].
  apply (proj1 (failed_fetch_aborts_tick Sample.online 1000 eq_refl)
           "timeout" (Resolved Sample.somePeers)).
Defined.

(** C8: a tick that fires while the peer is not online does nothing: the
    whole tick, whatever the requests would have settled to, leaves the world
    as it was and has no effect at all, so no request is issued and no event
    emitted; the same holds of the timer callback taken alone. *)
Theorem offline_tick_is_noop (w : World) (now : Z)
    (status_reply : Settled ref) (peers_reply : Settled (list PeerInfo)) :
  _state (peer w) ≠ Online →
  updateStatus now status_reply peers_reply w = (w, []) ∧
  updateStatus_start w = (w, []) ∧
  exec TimerFired w = (w, []).
Proof.
  intros H.
  assert (Hstart : updateStatus_start w = (w, [])).
  { unfold updateStatus_start. by rewrite decide_True. }
  split; [|split].
  - unfold updateStatus. by rewrite decide_True.
  - exact Hstart.
  - cbn [exec]. rewrite Hstart.
    by destruct (active (statusUpdateInterval (peer w))).
Qed.

Lemma offline_tick_is_noop_witness :
  state Sample.stuck = Offline ∧
  updateStatus 50000 (Resolved 4%positive) (Resolved Sample.somePeers)
    Sample.stuck = (Sample.stuck, []).
Proof.
  split; [reflexivity|].
  refine (proj1 (offline_tick_is_noop Sample.stuck 50000 _ _ _)).
  intros H. vm_compute in H. discriminate H.
Defined.

(** On an online peer whose timer is armed, the whole tick is the timer
    callback followed by the continuations of the requests it came to issue,
    with nothing running in between. *)
Lemma updateStatus_as_run now status_reply peers_reply w :
  active (statusUpdateInterval (peer w)) = true →
  _state (peer w) = Online →
  updateStatus now status_reply peers_reply w =
  match status_reply with
  | Resolved _ =>
      run [TimerFired; StatusSettled now status_reply; PeersSettled peers_reply]
        w
  | Rejected _ => run [TimerFired; StatusSettled now status_reply] w
  end.
Proof.
  intros Hactive Hon. unfold updateStatus. rewrite Hon.
  rewrite decide_False by auto.
  assert (Htimer : exec TimerFired w = effect WsGetStatus w).
  { cbn [exec]. rewrite Hactive. unfold updateStatus_start.
    rewrite Hon. by rewrite decide_False by auto. }
  destruct status_reply as [status|err]; cbn [run];
    apply injective_projections;
    rewrite ?seq_fst, ?seq_snd, Htimer; cbn [exec updateStatus_status];
    rewrite ?seq_fst, ?seq_snd; unfold effect, skip; cbn [fst snd];
    rewrite ?seq_fst, ?seq_snd; cbn [fst snd];
    by rewrite ?app_nil_r, <- ?app_assoc.
Qed.

(** ** Incoming link and connection state *)

(** C9: the incoming-link flag and the connection state are independent.
    [setWebsocketServerConnected] writes the incoming-link flag and nothing
    else, with no effect; the disconnect callback writes the connection
    state, to [Offline], and nothing else, so the incoming-link flag is as
    before; marking the link and then disconnecting leaves the flag true and
    the state [Offline]. *)
Theorem incoming_link_independent_of_state (w : World) :
  (∀ connected,
     setWebsocketServerConnected connected w =
     (mkWorld (objects w)
        (mkPeer (options (peer w)) (peers (peer w))
           (_lastHeightUpdate (peer w)) (_stuck (peer w))
           (statusUpdateInterval (peer w)) (_state (peer w))
           (_status (peer w)) (_httpActive (peer w)) connected), [])) ∧
  onClientDisconnect w =
    (mkWorld (objects w)
       (mkPeer (options (peer w)) (peers (peer w))
          (_lastHeightUpdate (peer w)) (_stuck (peer w))
          (statusUpdateInterval (peer w)) Offline
          (_status (peer w)) (_httpActive (peer w))
          (_wsServerConnected (peer w))), []) ∧
  (∀ connected,
     wsServerConnected
       (onClientDisconnect (setWebsocketServerConnected connected w).1).1
     = connected) ∧
  let after := ((setWebsocketServerConnected true >> onClientDisconnect) w).1 in
  wsServerConnected after = true ∧ state after = Offline.
Proof.
  split; [|split; [|split]]; try reflexivity.
  cbn zeta. split; reflexivity.
Qed.

(** ** Ingestion does not look at the connection state *)

Lemma handleStatusUpdate_set_state now status st w :
  handleStatusUpdate now status (set_state st w).1 =
  ((set_state st (handleStatusUpdate now status w).1).1,
   (handleStatusUpdate now status w).2).
Proof.
  rewrite !handleStatusUpdate_cases. cbn zeta.
  change (height_advanced (set_state st w).1 status)
    with (height_advanced w status).
  unfold set_state, update, deref.
  cbn [fst peer objects _stuck _lastHeightUpdate _status].
  destruct (height_advanced w status); [reflexivity|].
  destruct (negb (_stuck (peer w))
            && (now - _lastHeightUpdate (peer w) >? 20000)); reflexivity.
Qed.

(** C10: ingestion is not gated on the connection state.  Called on an
    offline peer, [handleStatusUpdate] has the same effects as on the same
    peer online and leaves the same world but for the connection state, which
    it does not touch: the stuck test runs, the report is merged into the
    stored status and [StatusUpdated] is emitted with the report.  The whole
    polling tick on the offline peer, in contrast, does nothing. *)
Theorem ingestion_ignores_connection_state
    (w : World) (now : Z) (status : ref) :
  let offline := (onClientDisconnect w).1 in
  let online := (onClientConnect w).1 in
  (handleStatusUpdate now status offline).2 =
    (handleStatusUpdate now status online).2 ∧
  (handleStatusUpdate now status offline).1 =
    (onClientDisconnect (handleStatusUpdate now status online).1).1 ∧
  _state (peer (handleStatusUpdate now status offline).1) = Offline ∧
  _stuck (peer (handleStatusUpdate now status offline).1) =
    negb (height_advanced w status) &&
    (_stuck (peer w) || (now - _lastHeightUpdate (peer w) >? 20000)) ∧
  snapshot (handleStatusUpdate now status offline).1 =
    Some (assigned (default (deref w status) (snapshot w)) (deref w status)) ∧
  last (handleStatusUpdate now status offline).2 =
    Some (Emit StatusUpdated (Some (PStatus status))) ∧
  ∀ status_reply peers_reply,
    updateStatus now status_reply peers_reply offline = (offline, []).
Proof.
  intros offline online. subst offline online.
  unfold onClientDisconnect, onClientConnect.
  rewrite !handleStatusUpdate_set_state. cbn [fst snd].
  split; [done|]. split; [done|]. split; [done|].
  split; [apply handleStatusUpdate_stuck|].
  split; [apply handleStatusUpdate_snapshot|].
  split; [apply handleStatusUpdate_last|].
  done.
Qed.

(** An offline peer that has stalled for more than twenty seconds is flagged
    stuck by a direct ingestion, although its ticks do nothing. *)
Example offline_ingestion_runs :
  state Sample.fresh = Offline ∧
  (ingest (take 2 Sample.stalled) Sample.fresh).2 =
  [Emit StatusUpdated (Some (PStatus 1%positive));
   Emit NodeStuck None;
   Emit StatusUpdated (Some (PStatus 2%positive))].
Proof. by vm_compute. Qed.

(** ** Which call writes what *)

(** The timer callback writes nothing. *)
Lemma exec_TimerFired_world w : (exec TimerFired w).1 = w.
Proof.
  cbn [exec]. unfold updateStatus_start, effect, skip.
  by destruct (active (statusUpdateInterval (peer w))),
    (decide (_state (peer w) ≠ Online)).
Qed.

Lemma exec_ingesting_world c w now report :
  ingests c = Some (now, report) →
  (exec c w).1 = (handleStatusUpdate now report w).1.
Proof.
  intros H.
  destruct c as [now' report'| | | | | | | |[]| |now' [report'|]|[]];
    try discriminate H; injection H as -> ->; cbn [exec updateStatus_status].
  - done.
  - rewrite seq_fst. by unfold effect.
Qed.

(** A call that is not an ingestion leaves the clock and the flag alone. *)
Lemma exec_not_ingesting_liveness c w :
  ingests c = None →
  _stuck (peer (exec c w).1) = _stuck (peer w) ∧
  _lastHeightUpdate (peer (exec c w).1) = _lastHeightUpdate (peer w).
Proof.
  intros H.
  destruct c as [now report| | | | | | | |[]| |now [report|]|[]];
    try discriminate H; cbn [exec updateStatus_status updateStatus_peers];
    unfold updateStatus_start; unfold_simple_actions; try done.
  by destruct (active (statusUpdateInterval (peer w))),
    (decide (_state (peer w) ≠ Online)).
Qed.

Lemma exec_state c w :
  _state (peer (exec c w).1) = connection_after c (_state (peer w)).
Proof.
  destruct (ingests c) as [[now report]|] eqn:Hc.
  - rewrite (exec_ingesting_world c w now report Hc).
    destruct (handleStatusUpdate_frame now report w) as (_ & _ & _ & -> & _).
    by destruct c as [| | | | | | | |[]| |? []|[]].
  - destruct c as [now report| | | | | | | |[]| |now [report|]|[]];
      try discriminate Hc;
      cbn [exec updateStatus_status updateStatus_peers connection_after];
      unfold updateStatus_start; unfold_simple_actions; try done.
    by destruct (active (statusUpdateInterval (peer w))),
      (decide (_state (peer w) ≠ Online)).
Qed.

Lemma exec_peers c w :
  peers (peer (exec c w).1) = peers_written c (peers (peer w)).
Proof.
  destruct (ingests c) as [[now report]|] eqn:Hc.
  - rewrite (exec_ingesting_world c w now report Hc).
    destruct (handleStatusUpdate_frame now report w) as (_ & -> & _).
    by destruct c as [| | | | | | | |[]| |? []|[]].
  - destruct c as [now report| | | | | | | |[]| |now [report|]|[]];
      try discriminate Hc;
      cbn [exec updateStatus_status updateStatus_peers peers_written];
      unfold updateStatus_start; unfold_simple_actions; try done.
    by destruct (active (statusUpdateInterval (peer w))),
      (decide (_state (peer w) ≠ Online)).
Qed.

Lemma exec_httpActive c w :
  _httpActive (peer (exec c w).1) = _httpActive (peer w) || probe_resolved c.
Proof.
  destruct (ingests c) as [[now report]|] eqn:Hc.
  - rewrite (exec_ingesting_world c w now report Hc).
    destruct (handleStatusUpdate_frame now report w) as (_ & _ & _ & _ & -> & _).
    destruct c as [| | | | | | | |[]| |? []|[]]; try discriminate Hc;
      by rewrite orb_false_r.
  - destruct c as [now report| | | | | | | |[]| |now [report|]|[]];
      try discriminate Hc;
      cbn [exec updateStatus_status updateStatus_peers probe_resolved];
      unfold updateStatus_start; unfold_simple_actions;
      rewrite ?orb_false_r, ?orb_true_r; try done.
    by destruct (active (statusUpdateInterval (peer w))),
      (decide (_state (peer w) ≠ Online)).
Qed.

Lemma exec_timer c w :
  options (peer (exec c w).1) = options (peer w) ∧
  delay (statusUpdateInterval (peer (exec c w).1)) =
    delay (statusUpdateInterval (peer w)) ∧
  active (statusUpdateInterval (peer (exec c w).1)) =
    active (statusUpdateInterval (peer w)) && negb (is_destroy c).
Proof.
  destruct (ingests c) as [[now report]|] eqn:Hc.
  - rewrite (exec_ingesting_world c w now report Hc).
    destruct (handleStatusUpdate_frame now report w) as (-> & _ & -> & _).
    destruct c as [| | | | | | | |[]| |? []|[]]; try discriminate Hc;
      by rewrite andb_true_r.
  - destruct c as [now report| | | | | | | |[]| |now [report|]|[]];
      try discriminate Hc;
      rewrite ?exec_TimerFired_world;
      cbn [exec updateStatus_status updateStatus_peers is_destroy negb];
      unfold_simple_actions;
      rewrite ?andb_true_r, ?andb_false_r; done.
Qed.

Lemma run_nil w : run [] w = (w, []).
Proof. reflexivity. Qed.

Lemma run_cons_fst c calls w :
  (run (c :: calls) w).1 = (run calls (exec c w).1).1.
Proof. cbn [run]. apply seq_fst. Qed.

Lemma run_cons_snd c calls w :
  (run (c :: calls) w).2 = (exec c w).2 ++ (run calls (exec c w).1).2.
Proof. cbn [run]. apply seq_snd. Qed.

(** X1: the connection state follows the connect and disconnect callbacks
    and nothing else.  After any sequence of calls it is [Online] or
    [Offline] as the last such callback in the sequence left it, and as it
    was before when there is none: ingestions, ticks, failed or successful
    replies, connection errors and [destroy] do not change it. *)
Theorem connection_state_follows_callbacks (calls : list Call) (w : World) :
  state (run calls w).1 = state_after calls (state w).
Proof.
  revert w. induction calls as [|c calls IH]; intros w; [reflexivity|].
  rewrite run_cons_fst, IH. cbn [state_after]. unfold state.
  by rewrite exec_state.
Qed.

(** X2: the peer list is replaced, never merged, and only by a resolved
    peer-list reply: after any sequence of calls it is the list of the last
    such reply in the sequence, and the list held before when there is
    none. *)
Theorem peers_follow_replies (calls : list Call) (w : World) :
  peers (peer (run calls w).1) = peers_after calls (peers (peer w)).
Proof.
  revert w. induction calls as [|c calls IH]; intros w; [reflexivity|].
  rewrite run_cons_fst, IH. cbn [peers_after]. by rewrite exec_peers.
Qed.

(** X3: the HTTP flag only ever goes up.  After any sequence of calls it is
    true exactly when it was true before or the HTTP probe resolved in the
    sequence; a rejected probe changes nothing and has no effect. *)
Theorem httpActive_only_rises (calls : list Call) (w : World) :
  httpActive (run calls w).1 = httpActive w || existsb probe_resolved calls ∧
  ∀ err, exec (HttpProbeSettled (Rejected err)) w = (w, []).
Proof.
  split; [|reflexivity].
  revert w. induction calls as [|c calls IH]; intros w.
  - cbn. by rewrite orb_false_r.
  - rewrite run_cons_fst, IH. cbn [existsb]. unfold httpActive.
    by rewrite exec_httpActive, orb_assoc.
Qed.

(** X4: the options and the period of the timer never change, and the timer
    is never armed again: after any sequence of calls it is active exactly
    when it was active before and [destroy] was not called in the
    sequence. *)
Theorem timer_never_rearmed (calls : list Call) (w : World) :
  let after := peer (run calls w).1 in
  options after = options (peer w) ∧
  delay (statusUpdateInterval after) = delay (statusUpdateInterval (peer w)) ∧
  active (statusUpdateInterval after) =
    active (statusUpdateInterval (peer w)) && negb (existsb is_destroy calls).
Proof.
  cbn zeta. revert w. induction calls as [|c calls IH]; intros w.
  - cbn. by rewrite andb_true_r.
  - rewrite run_cons_fst.
    destruct (IH (exec c w).1) as (-> & -> & ->).
    destruct (exec_timer c w) as (-> & -> & ->).
    cbn [existsb]. by rewrite negb_orb, andb_assoc.
Qed.

Lemma run_TimerFired_inactive n w :
  active (statusUpdateInterval (peer w)) = false →
  run (replicate n TimerFired) w = (w, []).
Proof.
  intros H. induction n as [|n IH]; [reflexivity|].
  cbn [replicate run]. unfold seq. cbn [exec]. rewrite H.
  unfold skip at 1. by rewrite IH.
Qed.

Lemma exec_TimerFired_offline w :
  _state (peer w) ≠ Online → exec TimerFired w = (w, []).
Proof.
  intros H. cbn [exec]. unfold updateStatus_start.
  rewrite decide_True by done.
  by destruct (active (statusUpdateInterval (peer w))).
Qed.

Lemma run_TimerFired_offline n w :
  _state (peer w) ≠ Online →
  run (replicate n TimerFired) w = (w, []).
Proof.
  intros H. induction n as [|n IH]; [reflexivity|].
  cbn [replicate run]. unfold seq.
  rewrite (exec_TimerFired_offline w H). by rewrite IH.
Qed.

Lemma run_TimerFired_online n w :
  active (statusUpdateInterval (peer w)) = true →
  _state (peer w) = Online →
  run (replicate n TimerFired) w = (w, replicate n WsGetStatus).
Proof.
  intros Hactive Hon. induction n as [|n IH]; [reflexivity|].
  cbn [replicate run]. unfold seq. cbn [exec]. rewrite Hactive.
  unfold updateStatus_start. rewrite Hon, decide_False by auto.
  unfold effect at 1. by rewrite IH.
Qed.

(** X5: [destroy] stops the polling and nothing else.  Its effects are the
    cancellation of the timer and the destruction of the WebSocket client; it
    leaves the status objects, the stored status, the connection state and
    the incoming-link flag as they are; after it no firing of the timer
    does anything, online or not; and a second [destroy] leaves the world as
    the first did. *)
Theorem destroy_stops_polling (w : World) (n : nat) :
  let d := (destroy w).1 in
  (destroy w).2 = [ClearInterval; WsDestroy] ∧
  objects d = objects w ∧
  status d = status w ∧
  state d = state w ∧
  wsServerConnected d = wsServerConnected w ∧
  run (replicate n TimerFired) d = (d, []) ∧
  (destroy d).1 = d.
Proof.
  cbn zeta. split_and!; try reflexivity.
  by apply run_TimerFired_inactive.
Qed.

(** X6: a new peer waits for its connection.  Right after construction the
    peer is offline, holds no status, is not stuck, and both flags are down;
    however often the timer fires, nothing is requested and nothing changes
    until the connect callback has run; the first firing after it issues the
    status request. *)
Theorem new_peer_waits_for_connection
    (store : gmap ref NodeStatus) (opts : PeerOptions.t)
    (ownNode : OwnNodeOptions.t) (n : nat) :
  let w := mkWorld store (constructor opts ownNode).1 in
  state w = Offline ∧ status w = None ∧ _stuck (peer w) = false ∧
  httpActive w = false ∧ wsServerConnected w = false ∧
  run (replicate n TimerFired) w = (w, []) ∧
  run (replicate n TimerFired ++ [ClientConnect; TimerFired]) w =
    ((onClientConnect w).1, [WsGetStatus]).
Proof.
  cbn zeta. split_and!; try reflexivity.
  - by apply run_TimerFired_offline.
  - induction n as [|n IH]; [reflexivity|].
    cbn [replicate app run]. unfold seq at 1.
    rewrite exec_TimerFired_offline by done.
    cbn [run] in IH. by rewrite IH.
Qed.

(** X7: ticks do not wait for one another.  On an online peer whose timer
    is armed, every firing of the timer issues a status request, whether or
    not earlier requests have been answered: [n] firings in a row issue [n]
    requests and change nothing. *)
Theorem ticks_do_not_wait_for_replies (n : nat) (w : World) :
  active (statusUpdateInterval (peer w)) = true →
  _state (peer w) = Online →
  run (replicate n TimerFired) w = (w, replicate n WsGetStatus).
Proof. apply run_TimerFired_online. Qed.

Lemma ticks_do_not_wait_for_replies_witness :
  run (replicate 3 TimerFired) Sample.online =
  (Sample.online, [WsGetStatus; WsGetStatus; WsGetStatus]).
Proof.
  apply (ticks_do_not_wait_for_replies 3 Sample.online); reflexivity.
Defined.

(** ** Which call emits what *)

Lemma exec_emits c w event payload :
  Emit event payload ∈ (exec c w).2 →
  match ingests c with
  | Some (now, report) =>
      (event = NodeStuck ∧ payload = None) ∨
      (event = StatusUpdated ∧ payload = Some (PStatus report))
  | None =>
      ∃ res, c = PeersSettled (Resolved res) ∧
        event = PeersUpdated ∧ payload = Some (PPeers res)
  end.
Proof.
  destruct c as [now report| | | | | | | |[]| |now [report|]|[res|]];
    cbn [exec ingests updateStatus_status updateStatus_peers].
  - intros [H|H]%handleStatusUpdate_no_other_effect; injection H as -> ->; auto.
  - unfold_simple_actions. by intros []%elem_of_nil.
  - unfold_simple_actions.
    intros [H|[H|[]%elem_of_nil]%elem_of_cons]%elem_of_cons; discriminate H.
  - unfold_simple_actions. intros [H|[]%elem_of_nil]%elem_of_cons.
    discriminate H.
  - unfold_simple_actions. by intros []%elem_of_nil.
  - unfold_simple_actions. by intros []%elem_of_nil.
  - unfold_simple_actions. by intros []%elem_of_nil.
  - unfold_simple_actions. intros [H|[]%elem_of_nil]%elem_of_cons.
    discriminate H.
  - unfold_simple_actions. by intros []%elem_of_nil.
  - unfold_simple_actions. by intros []%elem_of_nil.
  - unfold updateStatus_start, effect, skip.
    destruct (active (statusUpdateInterval (peer w))),
      (decide (_state (peer w) ≠ Online)); cbn [snd];
      try (by intros []%elem_of_nil).
    intros [H|[]%elem_of_nil]%elem_of_cons. discriminate H.
  - rewrite seq_snd, elem_of_app. unfold effect. cbn [snd].
    intros [[H|H]%handleStatusUpdate_no_other_effect
           |[H|[]%elem_of_nil]%elem_of_cons];
      [injection H as -> ->; auto..|discriminate H].
  - unfold_simple_actions. intros [H|[]%elem_of_nil]%elem_of_cons.
    discriminate H.
  - unfold_simple_actions. intros [H|[]%elem_of_nil]%elem_of_cons.
    injection H as -> ->. by exists res.
  - unfold_simple_actions. intros [H|[]%elem_of_nil]%elem_of_cons.
    discriminate H.
Qed.

(** X8: events come from replies only.  Whatever a call emits, it is an
    ingestion emitting [NodeStuck] without payload or [StatusUpdated] with
    the report, or a resolved peer-list reply emitting [PeersUpdated] with
    the list received: the connection callbacks, the incoming-link setter,
    [destroy], [requestBlocks] and its reply, the HTTP probe, the timer
    callback and every rejected request emit no event. *)
Theorem events_come_from_replies_only
    (c : Call) (w : World) (event : PeerEvent) (payload : option Payload) :
  Emit event payload ∈ (exec c w).2 →
  match ingests c with
  | Some (now, report) =>
      (event = NodeStuck ∧ payload = None) ∨
      (event = StatusUpdated ∧ payload = Some (PStatus report))
  | None =>
      ∃ res, c = PeersSettled (Resolved res) ∧
        event = PeersUpdated ∧ payload = Some (PPeers res)
  end.
Proof. apply exec_emits. Qed.

Lemma events_come_from_replies_only_witness :
  ∃ res, PeersSettled (Resolved Sample.somePeers) = PeersSettled (Resolved res) ∧
    PeersUpdated = PeersUpdated ∧
    Some (PPeers Sample.somePeers) = Some (PPeers res).
Proof.
  apply (events_come_from_replies_only
           (PeersSettled (Resolved Sample.somePeers)) Sample.online
           PeersUpdated (Some (PPeers Sample.somePeers))).
  apply list_elem_of_singleton. reflexivity.
Defined.

Lemma emitted_none event out :
  (∀ payload, Emit event payload ∉ out) → emitted event out = 0%nat.
Proof.
  unfold emitted. induction out as [|e out IH]; intros H; [reflexivity|].
  rewrite filter_cons. destruct (decide (is_emit event e = true)) as [He|He].
  - destruct e; try discriminate He. cbn in He.
    apply bool_decide_eq_true in He as ->.
    exfalso. eapply H. apply elem_of_cons. by left.
  - apply IH. intros payload Hin. eapply H. apply elem_of_cons. by right.
Qed.

Lemma exec_not_ingesting_emitted c w :
  ingests c = None →
  emitted NodeStuck (exec c w).2 = 0%nat ∧
  emitted StatusUpdated (exec c w).2 = 0%nat.
Proof.
  intros Hc. split; apply emitted_none; intros payload Hin;
    apply exec_emits in Hin; rewrite Hc in Hin;
    destruct Hin as (res & _ & Hevent & _); discriminate Hevent.
Qed.

(** X9: without reports there is no stuck detection.  A sequence of calls
    none of which ingests a report (timer ticks, rejected status requests,
    peer-list replies, connection callbacks and errors, however much time
    passes) leaves the stuck flag, the time of the last height advance, the
    stored status and every status object as they were, and emits neither
    [NodeStuck] nor [StatusUpdated]. *)
Theorem silence_never_raises_stuck (calls : list Call) (w : World) :
  Forall (λ c, ingests c = None) calls →
  let r := run calls w in
  _stuck (peer r.1) = _stuck (peer w) ∧
  _lastHeightUpdate (peer r.1) = _lastHeightUpdate (peer w) ∧
  _status (peer r.1) = _status (peer w) ∧
  objects r.1 = objects w ∧
  emitted NodeStuck r.2 = 0%nat ∧
  emitted StatusUpdated r.2 = 0%nat.
Proof.
  cbn zeta. revert w.
  induction calls as [|c calls IH]; intros w Hcalls; [done|].
  apply Forall_cons in Hcalls as [Hc Hcalls].
  rewrite run_cons_fst, run_cons_snd, !emitted_app.
  destruct (IH (exec c w).1 Hcalls) as (-> & -> & -> & -> & -> & ->).
  destruct (exec_not_ingesting_liveness c w Hc) as [-> ->].
  destruct (exec_not_ingesting c w Hc) as [-> ->].
  destruct (exec_not_ingesting_emitted c w Hc) as [-> ->].
  done.
Qed.

Lemma silence_never_raises_stuck_witness :
  let quiet :=
    [TimerFired; StatusSettled 30000 (Rejected "timeout");
     TimerFired; StatusSettled 60000 (Rejected "timeout");
     ClientDisconnect; ClientError "closed"; ClientConnect] in
  let r := run quiet (ingest (take 1 Sample.stalled) Sample.online).1 in
  _stuck (peer r.1) = false ∧
  emitted NodeStuck r.2 = 0%nat.
Proof.
  cbn zeta.
  match goal with
  | |- _ (peer (run ?calls ?w).1) = _ ∧ _ =>
      destruct (silence_never_raises_stuck calls w) as (H1 & _ & _ & _ & H2 & _)
  end.
  - repeat constructor.
  - split; [by rewrite H1|exact H2].
Defined.

Lemma handleStatusUpdate_filter_updated now status w :
  filter (λ e, is_emit StatusUpdated e = true) (handleStatusUpdate now status w).2
  = [Emit StatusUpdated (Some (PStatus status))].
Proof.
  rewrite handleStatusUpdate_out.
  by destruct (raises_stuck w now status).
Qed.

(** X10: every report is announced once, in order.  The [StatusUpdated]
    events of a sequence of ingestions are one per report, in the order of
    the reports, each with its report as payload, whatever the heights and
    times and whether or not the peer is stuck. *)
Theorem one_StatusUpdated_per_report (reports : list (Z * ref)) (w : World) :
  filter (λ e, is_emit StatusUpdated e = true) (ingest reports w).2 =
  (λ report, Emit StatusUpdated (Some (PStatus report))) <$> reports.*2.
Proof.
  revert w. induction reports as [|[now report] reports IH]; intros w;
    [reflexivity|].
  cbn [ingest]. rewrite seq_snd, filter_app, handleStatusUpdate_filter_updated.
  by rewrite IH.
Qed.

(** ** Consecutive reports *)

Lemma handleStatusUpdate_height_advanced_next now1 report1 w report2 :
  height_advanced (handleStatusUpdate now1 report1 w).1 report2 =
  (height (deref (handleStatusUpdate now1 report1 w).1 report2)
   >? height (deref w report1)).
Proof.
  unfold height_advanced. rewrite handleStatusUpdate_status.
  pose proof (handleStatusUpdate_snapshot now1 report1 w) as H.
  unfold snapshot in H. rewrite handleStatusUpdate_status in H.
  cbn [fmap option_fmap option_map] in H. injection H as ->. done.
Qed.

(** X11: progress is judged against the latest report, not against the
    greatest height seen.  After a report has been ingested, the next one
    counts as progress exactly when its height exceeds the height of that
    report, also when that report had lowered the stored height; it then
    resets the clock and the flag and emits nothing but [StatusUpdated]. *)
Theorem progress_is_against_latest_report
    (w : World) (now1 now2 : Z) (report1 report2 : ref) :
  let w1 := (handleStatusUpdate now1 report1 w).1 in
  let r := handleStatusUpdate now2 report2 w1 in
  height_advanced w1 report2 =
    (height (deref w1 report2) >? height (deref w report1)) ∧
  (height (deref w report1) < height (deref w1 report2) →
   _lastHeightUpdate (peer r.1) = now2 ∧ _stuck (peer r.1) = false ∧
   r.2 = [Emit StatusUpdated (Some (PStatus report2))]) ∧
  (height (deref w1 report2) ≤ height (deref w report1) →
   _lastHeightUpdate (peer r.1) = _lastHeightUpdate (peer w1)).
Proof.
  cbn zeta.
  pose proof (handleStatusUpdate_height_advanced_next now1 report1 w report2)
    as Hnext.
  split; [exact Hnext|]. split.
  - intros Hlt. rewrite handleStatusUpdate_cases. cbn zeta.
    rewrite Hnext. apply Z.gtb_lt in Hlt as ->. done.
  - intros Hle. rewrite handleStatusUpdate_lastHeightUpdate, Hnext.
    rewrite Z.gtb_ltb. by apply Z.ltb_ge in Hle as ->.
Qed.

(** Heights 10, 11, 10, 11: the last report is below nothing new, yet it
    is progress again, because the third lowered the stored height. *)
Example height_regression_rearms_progress :
  let store : gmap ref NodeStatus :=
    {[ 1%positive := mkNodeStatus 10 ∅; 2%positive := mkNodeStatus 11 ∅;
       3%positive := mkNodeStatus 10 ∅; 4%positive := mkNodeStatus 11 ∅ ]} in
  let w := mkWorld store (constructor Sample.options Sample.ownNode).1 in
  let w3 := (ingest [(0, 1%positive); (1000, 2%positive); (2000, 3%positive)]
               w).1 in
  _lastHeightUpdate (peer w3) = 1000 ∧
  height_advanced w3 4%positive = true ∧
  _lastHeightUpdate (peer (handleStatusUpdate 3000 4%positive w3).1) = 3000.
Proof. by vm_compute. Qed.

(** ** The first report object *)

(** X12: the first report is kept by reference and written by later ones.
    When a peer without a status ingests a report and then another, distinct
    one, the peer holds the first object, that object now holds the merge of
    the two, the second object holds what it held, and so does every other
    object: the payload of the first [StatusUpdated] event changes under the
    feet of whoever kept it. *)
Theorem first_report_is_kept_and_written
    (w : World) (now1 now2 : Z) (first second : ref) :
  _status (peer w) = None →
  first ≠ second →
  let w2 := (ingest [(now1, first); (now2, second)] w).1 in
  status w2 = Some first ∧
  deref w2 first = assigned (deref w first) (deref w second) ∧
  deref w2 second = deref w second ∧
  ∀ other, other ≠ first → deref w2 other = deref w other.
Proof.
  intros Hnone Hne. cbn zeta. cbn [ingest].
  rewrite !seq_fst. unfold skip. cbn [fst].
  set (w1 := (handleStatusUpdate now1 first w).1).
  assert (Hstored : _status (peer w1) = Some first).
  { subst w1. by rewrite handleStatusUpdate_status, Hnone. }
  assert (Hfirst : deref w1 first = deref w first).
  { apply handleStatusUpdate_deref_report. }
  assert (Hother : ∀ r, r ≠ first → deref w1 r = deref w r).
  { intros r Hr. apply handleStatusUpdate_deref_other. by rewrite Hnone. }
  split_and!.
  - unfold status. by rewrite handleStatusUpdate_status, Hstored.
  - pose proof (handleStatusUpdate_snapshot now2 second w1) as H.
    unfold snapshot in H. rewrite handleStatusUpdate_status, Hstored in H.
    cbn [fmap option_fmap option_map default] in H. injection H as ->.
    rewrite Hfirst. f_equal. apply Hother. auto.
  - rewrite handleStatusUpdate_deref_report. apply Hother. auto.
  - intros other Hr. rewrite handleStatusUpdate_deref_other.
    + by apply Hother.
    + by rewrite Hstored.
Qed.

Lemma first_report_is_kept_and_written_witness :
  let w2 := (ingest [(1000, 1%positive); (3000, 4%positive)] Sample.fresh).1 in
  status w2 = Some 1%positive ∧
  deref w2 1%positive = assigned Sample.anonymous10 Sample.named11 ∧
  deref w2 4%positive = Sample.named11.
Proof.
  cbn zeta.
  destruct (first_report_is_kept_and_written Sample.fresh 1000 3000
              1%positive 4%positive eq_refl) as (H1 & H2 & H3 & _).
  - discriminate.
  - split; [exact H1|]. split; [exact H2|exact H3].
Defined.

(** ** Fields of the stored status *)

Lemma exec_field_kept c w k :
  is_Some (snapshot w ≫= λ s, get s k) →
  is_Some (snapshot (exec c w).1 ≫= λ s, get s k).
Proof.
  intros [v Hv].
  destruct (snapshot w) as [old|] eqn:Hold; [|discriminate Hv].
  cbn in Hv.
  destruct (exec_snapshot c w old Hold) as [->|[report ->]];
    cbn [mbind option_bind].
  - by rewrite Hv.
  - rewrite get_assigned, Hv. by destruct (get (deref w report) k).
Qed.

Lemma run_field_kept calls : ∀ w k,
  is_Some (snapshot w ≫= λ s, get s k) →
  is_Some (snapshot (run calls w).1 ≫= λ s, get s k).
Proof.
  induction calls as [|c calls IH]; intros w k H; [exact H|].
  rewrite run_cons_fst. by apply IH, exec_field_kept.
Qed.

(** X13: fields never leave the stored status.  A field the stored status
    has is still there, with some value, after any sequence of calls: a
    report can overwrite a field but nothing deletes one. *)
Theorem stored_fields_never_disappear
    (calls : list Call) (w : World) (k : string) :
  is_Some (snapshot w ≫= λ s, get s k) →
  is_Some (snapshot (run calls w).1 ≫= λ s, get s k).
Proof. apply run_field_kept. Qed.

Lemma stored_fields_never_disappear_witness :
  is_Some (snapshot (run [CallHandleStatusUpdate 50000 4%positive; CallDestroy]
                       Sample.stuck).1 ≫= λ s, get s "version").
Proof.
  apply (stored_fields_never_disappear
           [CallHandleStatusUpdate 50000 4%positive; CallDestroy]
           Sample.stuck "version").
  vm_compute. eexists. reflexivity.
Defined.

(** X14: once a report has carried an identifier, the identifier accessor
    never returns undefined again, whatever calls follow; the identifier
    supplied at construction plays no part in this. *)
Theorem nonce_defined_for_good
    (w : World) (now : Z) (report : ref) (calls : list Call) :
  is_Some (get (deref w report) "nonce") →
  is_Some (nonce (run calls (handleStatusUpdate now report w).1).1).
Proof.
  intros [v Hv].
  set (w1 := (handleStatusUpdate now report w).1).
  assert (Hstored : _status (peer (run calls w1).1)
                    = Some (default report (_status (peer w)))).
  { apply run_status. apply handleStatusUpdate_status. }
  rewrite (nonce_with_status _ _ Hstored).
  apply run_field_kept. subst w1.
  rewrite handleStatusUpdate_snapshot. cbn [mbind option_bind].
  by rewrite get_assigned, Hv.
Qed.

Lemma nonce_defined_for_good_witness :
  is_Some (nonce (run [CallHandleStatusUpdate 60000 2%positive]
                    (handleStatusUpdate 50000 4%positive Sample.stuck).1).1).
Proof.
  apply (nonce_defined_for_good Sample.stuck 50000 4%positive
           [CallHandleStatusUpdate 60000 2%positive]).
  vm_compute. eexists. reflexivity.
Defined.

(** ** Whole ticks *)

(** X15: a tick whose two requests resolve.  On an online peer the tick
    requests the status, ingests it, then requests the peer list, replaces
    the list held by the one received and emits [PeersUpdated] with it, in
    that order; apart from the peer list the world is as the ingestion left
    it. *)
Theorem successful_tick
    (w : World) (now : Z) (status : ref) (res : list PeerInfo) :
  _state (peer w) = Online →
  let h := handleStatusUpdate now status w in
  let r := updateStatus now (Resolved status) (Resolved res) w in
  r.2 = WsGetStatus :: h.2
        ++ [WsGetPeers; Emit PeersUpdated (Some (PPeers res))] ∧
  r.1 = (set_peers res h.1).1 ∧
  peers (peer r.1) = res ∧
  objects r.1 = objects h.1 ∧
  snapshot r.1 = snapshot h.1.
Proof.
  intros Hon. cbn zeta.
  assert (Hr : updateStatus now (Resolved status) (Resolved res) w =
    ((set_peers res (handleStatusUpdate now status w).1).1,
     WsGetStatus :: (handleStatusUpdate now status w).2
       ++ [WsGetPeers; Emit PeersUpdated (Some (PPeers res))])).
  { unfold updateStatus. rewrite Hon, decide_False by auto.
    apply injective_projections; cbn [fst snd];
      do 4 (rewrite ?seq_fst, ?seq_snd;
            unfold effect, emit, updateStatus_peers; cbn [fst snd]);
      [done|].
    unfold set_peers, update. cbn [snd app]. by rewrite <- app_assoc. }
  rewrite Hr. by split_and!.
Qed.

Lemma successful_tick_witness :
  let r := updateStatus 1000 (Resolved 1%positive) (Resolved Sample.somePeers)
             Sample.online in
  r.2 = [WsGetStatus; Emit StatusUpdated (Some (PStatus 1%positive));
         WsGetPeers; Emit PeersUpdated (Some (PPeers Sample.somePeers))] ∧
  peers (peer r.1) = Sample.somePeers.
Proof.
  cbn zeta.
  destruct (successful_tick Sample.online 1000 1%positive Sample.somePeers
              eq_refl) as (H1 & _ & H2 & _).
  split; [exact H1|exact H2].
Defined.

(** X16: a disconnect does not stop a tick in flight.  Replies that arrive
    after the disconnect callback are handled as if the peer were online:
    the status is ingested with the same effects, the peer list is then
    requested, and a peer-list reply replaces the list and emits
    [PeersUpdated]; the connection state stays [Offline] throughout. *)
Theorem disconnect_does_not_stop_tick_in_flight
    (w : World) (now : Z) (report : ref) (res : list PeerInfo) :
  let r := run [ClientDisconnect; StatusSettled now (Resolved report);
                PeersSettled (Resolved res)] w in
  state r.1 = Offline ∧
  r.2 = (handleStatusUpdate now report w).2
        ++ [WsGetPeers; Emit PeersUpdated (Some (PPeers res))] ∧
  snapshot r.1 = snapshot (handleStatusUpdate now report w).1 ∧
  _stuck (peer r.1) = _stuck (peer (handleStatusUpdate now report w).1) ∧
  peers (peer r.1) = res.
Proof.
  cbn zeta.
  assert (Hr : run [ClientDisconnect; StatusSettled now (Resolved report);
                    PeersSettled (Resolved res)] w =
    ((set_peers res
        (set_state Offline (handleStatusUpdate now report w).1).1).1,
     (handleStatusUpdate now report w).2
       ++ [WsGetPeers; Emit PeersUpdated (Some (PPeers res))])).
  { cbn [run exec updateStatus_status updateStatus_peers].
    unfold onClientDisconnect.
    apply injective_projections; cbn [fst snd];
      do 5 (rewrite ?seq_fst, ?seq_snd;
            unfold effect, emit, skip; cbn [fst snd]);
      rewrite handleStatusUpdate_set_state; cbn [fst snd]; [done|].
    unfold set_state, set_peers, update. cbn [snd app].
    by rewrite <- app_assoc. }
  rewrite Hr. by split_and!.
Qed.

(** ** Ingesting the stored object itself *)

(** X17: handing the peer its own stored status object changes no status
    object and is never progress: the object is merged with itself, the
    clock stays, and the call can only raise the stuck flag. *)
Theorem reingesting_stored_status
    (w : World) (now : Z) (stored : ref) (contents : NodeStatus) :
  _status (peer w) = Some stored →
  objects w !! stored = Some contents →
  let r := handleStatusUpdate now stored w in
  objects r.1 = objects w ∧
  status r.1 = Some stored ∧
  _lastHeightUpdate (peer r.1) = _lastHeightUpdate (peer w) ∧
  _stuck (peer r.1) =
    _stuck (peer w) || (now - _lastHeightUpdate (peer w) >? 20000).
Proof.
  intros Hstored Hcontents. cbn zeta.
  assert (Hno : height_advanced w stored = false).
  { unfold height_advanced. rewrite Hstored. rewrite Z.gtb_ltb. apply Z.ltb_irrefl. }
  split_and!.
  - rewrite handleStatusUpdate_objects, Hstored. cbn.
    rewrite assigned_self. apply insert_id.
    unfold deref. by rewrite (lookup_total_correct _ _ _ Hcontents).
  - unfold status. by rewrite handleStatusUpdate_status, Hstored.
  - by rewrite handleStatusUpdate_lastHeightUpdate, Hno.
  - by rewrite handleStatusUpdate_stuck, Hno.
Qed.

Lemma reingesting_stored_status_witness :
  let r := handleStatusUpdate 90000 1%positive Sample.stuck in
  objects r.1 = objects Sample.stuck ∧ _stuck (peer r.1) = true.
Proof.
  cbn zeta.
  destruct (reingesting_stored_status Sample.stuck 90000 1%positive
              Sample.anonymous10 eq_refl eq_refl) as (H1 & _ & _ & H2).
  split; [exact H1|]. rewrite H2. reflexivity.
Defined.
